(** * The frame decoder of [UartUpliftSensor] (src/esphome/uplift_uart.h)

    The sensor polls a UART, looks for the start code (two consecutive bytes
    of value 1), assembles the two payload bytes that follow into a 16-bit
    raw value and publishes [raw / 10.0] whenever the raw value changed.

    The embedding keeps the shape of the C++ code:
    - the function-local [static] variables become the record [statics];
    - [startcode] and [loop] are state-passing functions with the names of
      the source; the two [while] loops of [loop] are [seek_while] and
      [frame_while];
    - the UART receive queue is a list of bytes, [available()] is its
      length and [read()] pops its head;
    - [publish_state] appends to the list of published values; the value
      recorded is the binary64 quotient that the argument expression
      [raw_data / 10.0] computes (the narrowing to the [float] parameter of
      [publish_state] belongs to the framework and is not modelled). *)

From Stdlib Require Import ZArith List Bool Lia.
From Stdlib Require Import Strings.Byte.
From Stdlib Require Import Uint63 PrimFloat.
Import ListNotations.

Set Warnings "-inexact-float".
Local Open Scope Z_scope.

(** ** The framework side: UART queue and sensor sink *)

(** Modelled from the spec: the byte source of [UARTDevice] (declared in
    esphome.h, outside the repository): the bytes received and not yet
    read, oldest first. *)
Definition fifo := list byte.

(** Modelled from the spec: [available()], "is a byte waiting", as the
    number of bytes waiting. *)
Definition available (rx : fifo) : Z := Z.of_nat (length rx).

(** Modelled from the spec: the [int] that [read()] returns for a received
    byte, between 0 and 255. *)
Definition value (b : byte) : Z := Z.of_N (Byte.to_N b).

(** Modelled from the spec: [read()], "the next byte": pops the oldest
    byte.  On an empty queue it returns -1; [loop] never reads one. *)
Definition read (rx : fifo) : Z * fifo :=
  match rx with
  | [] => (-1, [])
  | b :: rx' => (value b, rx')
  end.

(** ** The decoder's persistent variables *)

(** The [static] locals of [startcode] and [loop].  The [static char
    buffer[5]] of [loop] is never read or written and is left out. *)
Record statics := mkStatics {
  lastch : Z;              (* startcode: static int lastch = 0 *)
  mode : bool;             (* loop: static bool mode = false *)
  first_byte : bool;       (* loop: static bool first_byte = true *)
  raw_data : Z;            (* loop: static unsigned short raw_data = 0 *)
  previous_raw_data : Z    (* loop: static unsigned short previous_raw_data = 0 *)
}.

Definition initial : statics := mkStatics 0 false true 0 0.

Definition set_lastch (s : statics) (v : Z) : statics :=
  mkStatics v (mode s) (first_byte s) (raw_data s) (previous_raw_data s).
Definition set_mode (s : statics) (v : bool) : statics :=
  mkStatics (lastch s) v (first_byte s) (raw_data s) (previous_raw_data s).
Definition set_first_byte (s : statics) (v : bool) : statics :=
  mkStatics (lastch s) (mode s) v (raw_data s) (previous_raw_data s).
Definition set_raw_data (s : statics) (v : Z) : statics :=
  mkStatics (lastch s) (mode s) (first_byte s) v (previous_raw_data s).
Definition set_previous_raw_data (s : statics) (v : Z) : statics :=
  mkStatics (lastch s) (mode s) (first_byte s) (raw_data s) v.

(** Conversion of an [int] to [unsigned short] (16 bits, wraps around). *)
Definition ushort (z : Z) : Z := z mod 65536.

(** The argument of [publish_state]: [raw_data / 10.0], the raw value
    converted to binary64 and divided by the binary64 constant 10. *)
Definition tenths (raw : Z) : float :=
  PrimFloat.div (PrimFloat.of_uint63 (Uint63.of_Z raw)) 10%float.

(** ** [startcode] *)

Definition startcode (readch : Z) (s : statics) : bool * statics :=
  if (readch =? 1) && (lastch s =? 1)
  then (true, set_lastch s 0)
  else (false, set_lastch s readch).

(** ** [loop] *)

(** The body of the first loop:
    [mode = startcode(read()); first_byte = true;]. *)
Definition seek_byte (s : statics) (b : byte) : statics :=
  let (found, s1) := startcode (value b) s in
  set_first_byte (set_mode s1 found) true.

(** First loop: [while (mode == false && available())].  The recursion is
    on the queue: each turn reads one byte ([loop_reads_uart] states the
    two loops through [available] and [read]). *)
Fixpoint seek_while (s : statics) (rx : fifo) : statics * fifo :=
  match rx with
  | [] => (s, rx)
  | b :: rx' =>
      if negb (mode s) then seek_while (seek_byte s b) rx'
      else (s, rx)
  end.

(** The body of the second loop when [first_byte] holds: the high byte. *)
Definition high_byte (s : statics) (b : byte) : statics :=
  let s1 := set_raw_data s (ushort (256 * value b)) in
  let s2 := set_first_byte s1 false in
  if raw_data s2 >? 256 then set_mode s2 false else s2.

(** The body of the second loop otherwise: the low byte.  Returns the new
    variables and what was published. *)
Definition low_byte (s : statics) (b : byte) : statics * list float :=
  let s1 := set_raw_data s (ushort (raw_data s + value b)) in
  let s2 := set_mode s1 false in
  if negb (previous_raw_data s2 =? raw_data s2)
  then (set_previous_raw_data s2 (raw_data s2), [tenths (raw_data s2)])
  else (s2, []).

(** Second loop: [while (mode == true && available())]. *)
Fixpoint frame_while (s : statics) (rx : fifo) : statics * fifo * list float :=
  match rx with
  | [] => (s, rx, [])
  | b :: rx' =>
      if mode s then
        if first_byte s then frame_while (high_byte s b) rx'
        else
          let (s1, out) := low_byte s b in
          let '(s2, rx2, out2) := frame_while s1 rx' in
          (s2, rx2, out ++ out2)
      else (s, rx, [])
  end.

(** One invocation of [loop()] on the variables [s] with [rx] waiting in
    the UART: the new variables, the bytes left in the UART and the values
    published, in order. *)
Definition loop (s : statics) (rx : fifo) : statics * fifo * list float :=
  let (s1, rx1) := seek_while s rx in
  frame_while s1 rx1.

Definition state_of (r : statics * fifo * list float) : statics := fst (fst r).
Definition pending (r : statics * fifo * list float) : fifo := snd (fst r).
Definition published (r : statics * fifo * list float) : list float := snd r.

(** ** The scheduler *)

(** The framework calls [loop()] again and again; between two calls more
    bytes may arrive.  [polls sched s rx] runs one [loop()] per element of
    [sched], after the bytes of that element have been received. *)
Fixpoint polls (sched : list (list byte)) (s : statics) (rx : fifo)
  : statics * fifo * list float :=
  match sched with
  | [] => (s, rx, [])
  | chunk :: sched' =>
      let '(s1, rx1, out1) := loop s (rx ++ chunk) in
      let '(s2, rx2, out2) := polls sched' s1 rx1 in
      (s2, rx2, out1 ++ out2)
  end.

(** The whole stream [bs] is received at once and [loop()] is called until
    the UART is empty (one call per byte is always enough, see
    [run_drains]). *)
Definition run (s : statics) (bs : list byte) : statics * fifo * list float :=
  polls (bs :: repeat [] (length bs)) s [].

(** [loop()] called with exactly one byte waiting. *)
Definition onByte (s : statics) (b : byte) : statics * list float :=
  let r := loop s [b] in (state_of r, published r).

(** [loop()] called once after each byte of [bs]. *)
Fixpoint decode (s : statics) (bs : list byte) : statics * list float :=
  match bs with
  | [] => (s, [])
  | b :: bs' =>
      let (s1, out1) := onByte s b in
      let (s2, out2) := decode s1 bs' in
      (s2, out1 ++ out2)
  end.

(** ** Vocabulary of the specification *)

(** A frame on the wire: the start code, then a high and a low byte. *)
Record frame := mkFrame { high : byte; low : byte }.

(** A frame is well formed when its high byte is at most 1. *)
Definition well_formed (f : frame) : Prop := value (high f) <= 1.

(** The assembled value [256 * high + low]. *)
Definition frame_value (f : frame) : Z := 256 * value (high f) + value (low f).

Definition wire (f : frame) : list byte := [x01; x01; high f; low f].

Definition wire_all (fs : list frame) : list byte := flat_map wire fs.

(** What the specification expects of a sequence of well-formed frames,
    [emitted] being the previously emitted value: a frame whose value
    differs from it is published, once, and becomes the previously emitted
    value; a frame that repeats it is not published. *)
Fixpoint expected_publishes (emitted : Z) (fs : list frame) : list float :=
  match fs with
  | [] => []
  | f :: fs' =>
      if frame_value f =? emitted
      then expected_publishes emitted fs'
      else tenths (frame_value f) :: expected_publishes (frame_value f) fs'
  end.

(** Two neighbouring values equal to 1 somewhere in [vs]. *)
Fixpoint adjacent_ones (vs : list Z) : bool :=
  match vs with
  | [] => false
  | v1 :: vs' =>
      match vs' with
      | [] => false
      | v2 :: _ => ((v1 =? 1) && (v2 =? 1)) || adjacent_ones vs'
      end
  end.

(** The byte sequence [bs] contains a start code. *)
Definition has_marker (bs : list byte) : bool := adjacent_ones (map value bs).

(** What holds of the variables in every state the decoder can reach:
    inside a frame the start-code lookback is cleared, and once the high
    byte has been taken it passed the validity check. *)
Definition reachable_inv (s : statics) : Prop :=
  (mode s = true -> lastch s = 0) /\
  (mode s = true -> first_byte s = false -> 0 <= raw_data s <= 256).

(** A measurement the validity check lets through: [r / 10.0] for a raw
    value [r] of at most 511, hence at most 51.1. *)
Definition in_range (v : float) : Prop :=
  exists r : Z, 0 <= r <= 511 /\ v = tenths r /\ PrimFloat.leb v 51.1%float = true.

(** The streams of the specification's examples (bytes in hexadecimal:
    [x96] is 150, [x97] is 151, [xc8] is 200, [xd2] is 210). *)
Definition round_trip_stream : list byte :=
  [x09; x01; x01; x00; x96; x01; x01; x00; x96; x01; x01; x00; x97].

Definition value_change_stream : list byte :=
  [x01; x01; x00; xc8; x01; x01; x00; xd2].

Definition zero_frame_stream : list byte := [x01; x01; x00; x00].

(** ** Vocabulary of the further properties *)

(** No two neighbouring elements of [l] are equal. *)
Fixpoint no_repeat {A : Type} (l : list A) : Prop :=
  match l with
  | [] => True
  | a :: l' =>
      match l' with
      | [] => True
      | b :: _ => a <> b /\ no_repeat l'
      end
  end.

(** How far the decoder is into a frame: 0 while seeking, 1 after a first
    byte of value 1, 2 after the start code, 3 after the high byte. *)
Definition phase (s : statics) : nat :=
  if mode s then (if first_byte s then 2%nat else 3%nat)
  else if lastch s =? 1 then 1%nat else 0%nat.

(** The number of measurements [r / 10.0], [r] from 0 to 511, that are
    below [v] (used to tell the raw value of a measurement). *)
Definition rank (v : float) : Z :=
  Z.of_nat
    (length (filter (fun n => PrimFloat.ltb (tenths (Z.of_nat n)) v) (seq 0 512))).

(** The validity check of [loop] on the high byte of a frame. *)
Definition accepted (f : frame) : bool := value (high f) <=? 1.

(** A frame that is either well formed, or rejected with a low byte that
    cannot be taken for the start of a start code. *)
Definition tolerated (f : frame) : Prop :=
  well_formed f \/ (1 < value (high f) /\ value (low f) <> 1).

(** The ranges of the integer variables. *)
Definition in_bounds (s : statics) : Prop :=
  0 <= lastch s <= 255 /\
  0 <= raw_data s <= 65280 /\
  0 <= previous_raw_data s <= 511.

(** * Properties *)

(** ** The UART interface *)

Lemma value_range (b : byte) : 0 <= value b <= 255.
Proof.
  unfold value. pose proof (Byte.to_N_bounded b). lia.
Qed.

Lemma available_zero (rx : fifo) : (available rx =? 0) = true <-> rx = [].
Proof.
  unfold available. destruct rx as [|b rx]; cbn [length]; split; intro H.
  - reflexivity.
  - reflexivity.
  - apply Z.eqb_eq in H. lia.
  - discriminate.
Qed.

(** The two loops of [loop], read through [available()] and [read()]. *)
Lemma loop_reads_uart (s : statics) (rx : fifo) :
  seek_while s rx =
    (if negb (mode s) && negb (available rx =? 0)
     then let (c, rx') := read rx in
          let (found, s1) := startcode c s in
          seek_while (set_first_byte (set_mode s1 found) true) rx'
     else (s, rx))
  /\
  frame_while s rx =
    (if mode s && negb (available rx =? 0)
     then let (c, rx') := read rx in
          if first_byte s
          then
            let s2 := set_first_byte (set_raw_data s (ushort (256 * c))) false in
            frame_while (if raw_data s2 >? 256 then set_mode s2 false else s2) rx'
          else
            let s2 := set_mode (set_raw_data s (ushort (raw_data s + c))) false in
            let '(s3, rx3, out3) :=
              frame_while
                (if negb (previous_raw_data s2 =? raw_data s2)
                 then set_previous_raw_data s2 (raw_data s2) else s2) rx' in
            (s3, rx3,
             (if negb (previous_raw_data s2 =? raw_data s2)
              then [tenths (raw_data s2)] else []) ++ out3)
     else (s, rx, [])).
Proof.
  destruct rx as [|b rx].
  - split; cbn [seek_while frame_while]; rewrite andb_false_r; reflexivity.
  - assert (Ha : (available (b :: rx) =? 0) = false).
    { destruct (available (b :: rx) =? 0) eqn:E; [|reflexivity].
      apply available_zero in E. discriminate. }
    rewrite Ha. cbn [negb read]. rewrite !andb_true_r. split.
    + cbn [seek_while]. unfold seek_byte.
      destruct (mode s); cbn [negb]; [reflexivity|].
      destruct (startcode (value b) s). reflexivity.
    + cbn [frame_while]. destruct (mode s); [|reflexivity].
      destruct (first_byte s); [reflexivity|].
      unfold low_byte. cbv zeta.
      destruct (negb _); reflexivity.
Qed.

(** ** One byte at a time *)

Lemma frame_while_seeking (s : statics) (rx : fifo) :
  mode s = false -> frame_while s rx = (s, rx, []).
Proof.
  intro Hm. destruct rx as [|b rx]; cbn [frame_while]; [reflexivity|].
  rewrite Hm. reflexivity.
Qed.

Lemma seek_while_in_frame (s : statics) (rx : fifo) :
  mode s = true -> seek_while s rx = (s, rx).
Proof.
  intro Hm. destruct rx as [|b rx]; cbn [seek_while]; [reflexivity|].
  rewrite Hm. reflexivity.
Qed.

Lemma onByte_seeking (s : statics) (b : byte) :
  mode s = false -> onByte s b = (seek_byte s b, []).
Proof.
  intro Hm. unfold onByte, loop. cbn [seek_while]. rewrite Hm. cbn [negb].
  reflexivity.
Qed.

Lemma onByte_high (s : statics) (b : byte) :
  mode s = true -> first_byte s = true -> onByte s b = (high_byte s b, []).
Proof.
  intros Hm Hf. unfold onByte, loop. rewrite (seek_while_in_frame _ _ Hm).
  cbn [frame_while]. rewrite Hm, Hf. reflexivity.
Qed.

Lemma onByte_low (s : statics) (b : byte) :
  mode s = true -> first_byte s = false -> onByte s b = low_byte s b.
Proof.
  intros Hm Hf. unfold onByte, loop. rewrite (seek_while_in_frame _ _ Hm).
  cbn [frame_while]. rewrite Hm, Hf.
  destruct (low_byte s b) as [s1 out]. cbn. rewrite app_nil_r. reflexivity.
Qed.

Lemma decode_app (s : statics) (bs1 bs2 : list byte) :
  decode s (bs1 ++ bs2) =
    (fst (decode (fst (decode s bs1)) bs2),
     snd (decode s bs1) ++ snd (decode (fst (decode s bs1)) bs2)).
Proof.
  revert s. induction bs1 as [|b bs1 IH]; intro s.
  - cbn. destruct (decode s bs2). reflexivity.
  - cbn [app decode]. destruct (onByte s b) as [s1 out1]. rewrite IH.
    destruct (decode s1 bs1) as [s2 out2]. cbn [fst snd].
    destruct (decode s2 bs2) as [s3 out3]. cbn [fst snd].
    rewrite app_assoc. reflexivity.
Qed.

(** ** [loop] consumes a prefix of the queue, byte by byte *)

(** The first loop reads a prefix [pre] of the queue, treats it as
    [decode] does and publishes nothing; it stops on an empty queue or in a
    frame. *)
Lemma seek_while_decode (rx : fifo) : forall s,
  exists pre,
    rx = pre ++ snd (seek_while s rx) /\
    decode s pre = (fst (seek_while s rx), []) /\
    (mode s = false -> rx <> [] -> pre <> []) /\
    (mode s = true -> pre = []).
Proof.
  induction rx as [|b rx IH]; intro s.
  - exists []. cbn. repeat split; congruence.
  - cbn [seek_while]. destruct (mode s) eqn:Hm; cbn [negb].
    + exists []. cbn. repeat split; congruence.
    + destruct (IH (seek_byte s b)) as (pre & Hrx & Hdec & _ & _).
      exists (b :: pre). repeat split.
      * cbn [app]. f_equal. exact Hrx.
      * cbn [decode]. rewrite (onByte_seeking _ _ Hm), Hdec. reflexivity.
      * discriminate.
      * discriminate.
Qed.

(** The second loop does the same, and publishes what [decode] does. *)
Lemma frame_while_decode (rx : fifo) : forall s,
  exists pre,
    rx = pre ++ pending (frame_while s rx) /\
    decode s pre = (state_of (frame_while s rx), published (frame_while s rx)) /\
    (mode s = true -> rx <> [] -> pre <> []) /\
    (mode s = false -> pre = []).
Proof.
  induction rx as [|b rx IH]; intro s.
  - exists []. cbn. repeat split; congruence.
  - cbn [frame_while]. destruct (mode s) eqn:Hm.
    + destruct (first_byte s) eqn:Hf.
      * destruct (IH (high_byte s b)) as (pre & Hrx & Hdec & _ & _).
        exists (b :: pre). repeat split; try discriminate.
        -- cbn [app]. f_equal. exact Hrx.
        -- cbn [decode]. rewrite (onByte_high _ _ Hm Hf), Hdec. reflexivity.
      * pose proof (onByte_low s b Hm Hf) as Hlow.
        destruct (low_byte s b) as [s1 out].
        destruct (IH s1) as (pre & Hrx & Hdec & _ & _).
        destruct (frame_while s1 rx) as [[s2 rx2] out2].
        unfold pending, state_of, published in *. cbn [fst snd] in *.
        exists (b :: pre). repeat split; try discriminate.
        -- cbn [app]. f_equal. exact Hrx.
        -- cbn [decode]. rewrite Hlow, Hdec. reflexivity.
    + exists []. cbn. repeat split; congruence.
Qed.

(** One [loop()] reads a prefix of the queue (a non-empty one when the
    queue is not empty) and treats it as [decode] does. *)
Lemma loop_decode (s : statics) (rx : fifo) :
  exists pre,
    rx = pre ++ pending (loop s rx) /\
    decode s pre = (state_of (loop s rx), published (loop s rx)) /\
    (rx <> [] -> pre <> []).
Proof.
  unfold loop.
  destruct (seek_while_decode rx s) as (pre1 & Hrx1 & Hdec1 & Hne1 & Hnil1).
  destruct (seek_while s rx) as [s1 rx1]. cbn [fst snd] in *.
  destruct (frame_while_decode rx1 s1) as (pre2 & Hrx2 & Hdec2 & Hne2 & _).
  exists (pre1 ++ pre2). repeat split.
  - rewrite <- app_assoc, <- Hrx2. exact Hrx1.
  - rewrite decode_app, Hdec1. cbn [fst snd]. rewrite Hdec2. reflexivity.
  - intros Hrx Hpre. apply app_eq_nil in Hpre. destruct Hpre as [H1 H2].
    subst pre1 pre2. cbn [app] in *. subst rx1.
    cbn in Hdec1. injection Hdec1 as Hs1. subst s1.
    destruct (mode s) eqn:Hm.
    + apply Hne2; [reflexivity | exact Hrx | reflexivity].
    + apply Hne1; [reflexivity | exact Hrx | reflexivity].
Qed.

Lemma loop_progress (s : statics) (rx : fifo) :
  rx <> [] -> (length (pending (loop s rx)) < length rx)%nat.
Proof.
  intro Hrx. destruct (loop_decode s rx) as (pre & Heq & _ & Hne).
  specialize (Hne Hrx). rewrite Heq at 2. rewrite length_app.
  destruct pre as [|b pre]; [congruence|]. cbn [length]. lia.
Qed.

(** ** The scheduler does not matter *)

(** However the stream is cut into arrivals, the polls treat the bytes
    they have read as [decode] does. *)
Lemma polls_decode (sched : list (list byte)) : forall s rx,
  exists pre,
    rx ++ concat sched = pre ++ pending (polls sched s rx) /\
    decode s pre = (state_of (polls sched s rx), published (polls sched s rx)).
Proof.
  induction sched as [|chunk sched IH]; intros s rx.
  - exists []. cbn. rewrite app_nil_r. split; reflexivity.
  - cbn [polls concat].
    destruct (loop_decode s (rx ++ chunk)) as (pre1 & Hrx1 & Hdec1 & _).
    destruct (loop s (rx ++ chunk)) as [[s1 rx1] out1].
    destruct (IH s1 rx1) as (pre2 & Hrx2 & Hdec2).
    destruct (polls sched s1 rx1) as [[s2 rx2] out2].
    unfold pending, state_of, published in *. cbn [fst snd] in *.
    exists (pre1 ++ pre2). split.
    + rewrite app_assoc, Hrx1, <- !app_assoc. f_equal. exact Hrx2.
    + rewrite decode_app, Hdec1. cbn [fst snd]. rewrite Hdec2. reflexivity.
Qed.

(** A schedule that leaves the UART empty has decoded the whole stream. *)
Theorem polls_drained (sched : list (list byte)) (s : statics) (rx : fifo) :
  pending (polls sched s rx) = [] ->
  polls sched s rx =
    (fst (decode s (rx ++ concat sched)), [], snd (decode s (rx ++ concat sched))).
Proof.
  intro Hp. destruct (polls_decode sched s rx) as (pre & Heq & Hdec).
  rewrite Hp, app_nil_r in Heq. rewrite Heq, Hdec.
  destruct (polls sched s rx) as [[s1 rx1] out1].
  unfold pending, state_of, published in *. cbn [fst snd] in *. subst rx1.
  reflexivity.
Qed.

Lemma concat_repeat_nil (n : nat) : concat (repeat (@nil byte) n) = [].
Proof. induction n as [|n IH]; [reflexivity | exact IH]. Qed.

(** With nothing arriving, one poll per waiting byte empties the UART. *)
Lemma polls_drain (n : nat) : forall s rx,
  (length rx <= n)%nat -> pending (polls (repeat [] n) s rx) = [].
Proof.
  induction n as [|n IH]; intros s rx Hlen.
  - destruct rx; [reflexivity | cbn in Hlen; lia].
  - cbn [repeat polls]. rewrite app_nil_r.
    assert (Hl : (length (pending (loop s rx)) <= n)%nat).
    { destruct rx as [|b rx].
      - cbn. lia.
      - pose proof (loop_progress s (b :: rx)) as Hp.
        assert (Hne : b :: rx <> []) by discriminate.
        specialize (Hp Hne). lia. }
    destruct (loop s rx) as [[s1 rx1] out1].
    unfold pending in Hl. cbn [fst snd] in Hl.
    specialize (IH s1 rx1 Hl).
    destruct (polls (repeat [] n) s1 rx1) as [[s2 rx2] out2].
    exact IH.
Qed.

(** [run] empties the UART. *)
Lemma run_drains (s : statics) (bs : list byte) : pending (run s bs) = [].
Proof.
  unfold run. cbn [polls app].
  assert (Hl : (length (pending (loop s bs)) <= length bs)%nat).
  { destruct bs as [|b bs].
    - cbn. lia.
    - assert (Hne : b :: bs <> []) by discriminate.
      pose proof (loop_progress s (b :: bs) Hne). lia. }
  destruct (loop s bs) as [[s1 rx1] out1].
  unfold pending in Hl. cbn [fst snd] in Hl.
  pose proof (polls_drain (length bs) s1 rx1 Hl) as Hd.
  destruct (polls (repeat [] (length bs)) s1 rx1) as [[s2 rx2] out2].
  exact Hd.
Qed.

(** [run] is [decode]: calling [loop()] until the queue is empty treats
    the stream as one call per byte does. *)
Lemma run_decode (s : statics) (bs : list byte) :
  run s bs = (fst (decode s bs), [], snd (decode s bs)).
Proof.
  pose proof (polls_drained (bs :: repeat [] (length bs)) s [] (run_drains s bs))
    as H.
  cbn [concat app] in H. rewrite concat_repeat_nil, app_nil_r in H. exact H.
Qed.

(** X1: the delivery schedule does not matter: however the bytes arrive
    between the calls of [loop()], a schedule that leaves the UART empty
    gives the variables and the published values of [run] on the whole
    stream. *)
Theorem schedule_independent (sched : list (list byte)) (s : statics) :
  pending (polls sched s []) = [] ->
  polls sched s [] = run s (concat sched).
Proof.
  intro Hp. rewrite (polls_drained sched s [] Hp), run_decode. reflexivity.
Qed.

Lemma state_of_run (s : statics) (bs : list byte) :
  state_of (run s bs) = fst (decode s bs).
Proof. rewrite run_decode. reflexivity. Qed.

Lemma published_run (s : statics) (bs : list byte) :
  published (run s bs) = snd (decode s bs).
Proof. rewrite run_decode. reflexivity. Qed.

(** ** The three bodies, case by case *)

Arguments value : simpl never.

(** Simplifies record projections and updates, and nothing else. *)
Ltac fields :=
  cbn [lastch mode first_byte raw_data previous_raw_data
       set_lastch set_mode set_first_byte set_raw_data set_previous_raw_data
       fst snd app negb andb] in *.

Lemma value_x01 : value x01 = 1.
Proof. reflexivity. Qed.

Lemma ushort_small (z : Z) : 0 <= z < 65536 -> ushort z = z.
Proof. intro H. unfold ushort. apply Z.mod_small. exact H. Qed.

Lemma seek_byte_found (s : statics) (b : byte) :
  value b = 1 -> lastch s = 1 ->
  seek_byte s b = mkStatics 0 true true (raw_data s) (previous_raw_data s).
Proof.
  intros Hb Hl. unfold seek_byte, startcode. rewrite Hb, Hl. reflexivity.
Qed.

Lemma seek_byte_carry (s : statics) (b : byte) :
  ~ (value b = 1 /\ lastch s = 1) ->
  seek_byte s b =
    mkStatics (value b) false true (raw_data s) (previous_raw_data s).
Proof.
  intro Hn. unfold seek_byte, startcode.
  destruct (value b =? 1) eqn:Eb; destruct (lastch s =? 1) eqn:El;
    cbn [andb]; try reflexivity.
  apply Z.eqb_eq in Eb, El. tauto.
Qed.

Lemma high_byte_ok (s : statics) (b : byte) :
  value b <= 1 ->
  high_byte s b =
    mkStatics (lastch s) (mode s) false (256 * value b) (previous_raw_data s).
Proof.
  intro Hb. pose proof (value_range b) as Hr. unfold high_byte.
  rewrite ushort_small by lia. fields.
  destruct (256 * value b >? 256) eqn:E; [|reflexivity].
  apply Z.gtb_lt in E. lia.
Qed.

Lemma high_byte_bad (s : statics) (b : byte) :
  1 < value b ->
  high_byte s b =
    mkStatics (lastch s) false false (256 * value b) (previous_raw_data s).
Proof.
  intro Hb. pose proof (value_range b) as Hr. unfold high_byte.
  rewrite ushort_small by lia. fields.
  destruct (256 * value b >? 256) eqn:E; [reflexivity|].
  rewrite Z.gtb_ltb in E. apply Z.ltb_ge in E. lia.
Qed.

(** After the low byte [previous_raw_data] equals [raw_data] on both
    branches: the assignment is skipped only when they are equal already. *)
Lemma low_byte_wrap (s : statics) (b : byte) :
  let v := ushort (raw_data s + value b) in
  low_byte s b =
    (mkStatics (lastch s) false (first_byte s) v v,
     if v =? previous_raw_data s then [] else [tenths v]).
Proof.
  unfold low_byte. fields.
  destruct (previous_raw_data s =? ushort (raw_data s + value b)) eqn:E.
  - rewrite Z.eqb_sym, E. fields. apply Z.eqb_eq in E. rewrite <- E.
    reflexivity.
  - rewrite Z.eqb_sym, E. reflexivity.
Qed.

Lemma low_byte_checked (s : statics) (b : byte) :
  0 <= raw_data s <= 256 ->
  let v := raw_data s + value b in
  low_byte s b =
    (mkStatics (lastch s) false (first_byte s) v v,
     if v =? previous_raw_data s then [] else [tenths v]).
Proof.
  intros Hr. pose proof (value_range b) as Hb. cbv zeta.
  rewrite low_byte_wrap. cbv zeta. rewrite ushort_small by lia. reflexivity.
Qed.

Lemma loop_one (s : statics) (b : byte) :
  loop s [b] = (fst (onByte s b), [], snd (onByte s b)).
Proof.
  destruct (loop_decode s [b]) as (pre & Heq & _ & Hne).
  unfold onByte. cbn [fst snd].
  destruct (loop s [b]) as [[s1 rx1] out1].
  unfold pending, state_of, published in *. cbn [fst snd] in *.
  destruct pre as [|b' pre]; [exfalso; apply Hne; [discriminate | reflexivity]|].
  destruct pre; destruct rx1; try discriminate; reflexivity.
Qed.

(** A whole frame after the start code: high byte at most 1, then low. *)
Lemma decode_payload (s : statics) (h l : byte) :
  mode s = true -> first_byte s = true -> value h <= 1 ->
  let v := 256 * value h + value l in
  decode s [h; l] =
    (mkStatics (lastch s) false false v v,
     if v =? previous_raw_data s then [] else [tenths v]).
Proof.
  intros Hm Hf Hh. pose proof (value_range h) as Hr. cbv zeta.
  cbn [decode]. rewrite (onByte_high _ _ Hm Hf), (high_byte_ok _ _ Hh), Hm.
  rewrite onByte_low by reflexivity.
  rewrite low_byte_checked by (fields; lia). fields.
  rewrite app_nil_r. reflexivity.
Qed.

(** ** Start-code detection *)

(** C4: while seeking ([mode == false]), a byte of value 1 that follows a
    byte of value 1 ([lastch == 1]) puts the decoder in a frame
    ([mode = true]), clears [lastch] and makes the next byte the high byte
    ([first_byte = true]); any other byte is stored in [lastch] and the
    decoder keeps seeking.  Nothing is published and the other variables
    keep their values.  From the initial state the bytes 1, 1 lead into a
    frame with [first_byte = true]. *)
Theorem seeking_step (s : statics) (b : byte) :
  mode s = false ->
  (value b = 1 /\ lastch s = 1 ->
   loop s [b] =
     (mkStatics 0 true true (raw_data s) (previous_raw_data s), [], []))
  /\
  (~ (value b = 1 /\ lastch s = 1) ->
   loop s [b] =
     (mkStatics (value b) false true (raw_data s) (previous_raw_data s), [], []))
  /\
  (mode initial = false /\
   run initial [x01; x01] = (mkStatics 0 true true 0 0, [], [])).
Proof.
  intro Hm. rewrite loop_one, (onByte_seeking _ _ Hm). cbn [fst snd].
  split; [|split].
  - intros [Hb Hl]. rewrite (seek_byte_found _ _ Hb Hl). reflexivity.
  - intro Hn. rewrite (seek_byte_carry _ _ Hn). reflexivity.
  - split; [reflexivity | vm_compute; reflexivity].
Qed.

Lemma seeking_step_witness :
  mode (mkStatics 1 false true 7 7) = false /\
  loop (mkStatics 1 false true 7 7) [x01] = (mkStatics 0 true true 7 7, [], []) /\
  loop (mkStatics 1 false true 7 7) [x05] = (mkStatics 5 false true 7 7, [], []).
Proof.
  split; [reflexivity | split].
  - apply (seeking_step (mkStatics 1 false true 7 7) x01 eq_refl).
    split; reflexivity.
  - apply (seeking_step (mkStatics 1 false true 7 7) x05 eq_refl).
    intros [H _]. discriminate H.
Defined.

(** ** Polling without data *)

(** C8: with no byte waiting, [loop()] changes no variable and publishes
    nothing, in every state; so does any number of such polls. *)
Theorem idle_poll (s : statics) (n : nat) :
  loop s [] = (s, [], []) /\ polls (repeat [] n) s [] = (s, [], []).
Proof.
  assert (Hloop : forall s0, loop s0 [] = (s0, [], [])) by reflexivity.
  split; [apply Hloop|].
  induction n as [|n IH]; [reflexivity|].
  cbn [repeat polls app]. rewrite Hloop, IH. reflexivity.
Qed.

(** ** Payload assembly *)

(** C2: in a frame, after the start code, an accepted high byte [h] (at
    most 1) and a low byte [l] leave [raw_data = 256 * h + l], and exactly
    the measurement [(256 * h + l) / 10.0] is published when that value
    differs from [previous_raw_data] (nothing otherwise).  In particular
    the payload 0, 200 gives [raw_data = 200] and publishes 20.0 when the
    previous value is not 200. *)
Theorem frame_assembly (s : statics) (h l : byte) :
  mode s = true -> first_byte s = true -> value h <= 1 ->
  let v := 256 * value h + value l in
  raw_data (state_of (run s [h; l])) = v /\
  published (run s [h; l]) =
    (if v =? previous_raw_data s then [] else [tenths v]) /\
  (previous_raw_data s <> 200 ->
   raw_data (state_of (run s [x00; xc8])) = 200 /\
   published (run s [x00; xc8]) = [20%float]).
Proof.
  intros Hm Hf Hh v. rewrite !run_decode.
  unfold state_of, published. cbn [fst snd].
  rewrite (decode_payload s h l Hm Hf Hh). cbn [fst snd raw_data].
  split; [reflexivity | split; [reflexivity|]].
  intro Hp.
  assert (H0 : value x00 <= 1) by (vm_compute; discriminate).
  rewrite (decode_payload s x00 xc8 Hm Hf H0). cbn [fst snd raw_data].
  change (256 * value x00 + value xc8) with 200.
  split; [reflexivity|].
  destruct (200 =? previous_raw_data s) eqn:E.
  - apply Z.eqb_eq in E. congruence.
  - vm_compute. reflexivity.
Qed.

Lemma frame_assembly_witness :
  mode (mkStatics 0 true true 0 0) = true /\
  first_byte (mkStatics 0 true true 0 0) = true /\
  value x01 <= 1 /\
  raw_data (state_of (run (mkStatics 0 true true 0 0) [x01; x2c])) = 300 /\
  published (run (mkStatics 0 true true 0 0) [x01; x2c]) = [30%float].
Proof.
  assert (Hh : value x01 <= 1) by (vm_compute; discriminate).
  split; [reflexivity | split; [reflexivity | split; [exact Hh|]]].
  pose proof (frame_assembly (mkStatics 0 true true 0 0) x01 x2c
                eq_refl eq_refl Hh) as H.
  cbv zeta in H. destruct H as (H1 & H2 & _).
  split; [exact H1 | exact H2].
Defined.

(** C6: a high byte of at most 1 is accepted: the decoder stays in the
    frame with [raw_data = 256 * h] and waits for the low byte, publishing
    nothing yet; a high byte of exactly 1 gives [raw_data = 256] and is
    accepted too; the low byte [l] that follows publishes
    [(256 * h + l) / 10.0] unless that is the previous value. *)
Theorem high_byte_accepted (s : statics) (h : byte) :
  mode s = true -> first_byte s = true -> value h <= 1 ->
  loop s [h] =
    (mkStatics (lastch s) true false (256 * value h) (previous_raw_data s),
     [], []) /\
  loop s [x01] =
    (mkStatics (lastch s) true false 256 (previous_raw_data s), [], []) /\
  forall l : byte,
    published (loop (state_of (loop s [h])) [l]) =
      (if 256 * value h + value l =? previous_raw_data s
       then [] else [tenths (256 * value h + value l)]).
Proof.
  intros Hm Hf Hh. pose proof (value_range h) as Hr.
  assert (H1 : value x01 <= 1) by (vm_compute; discriminate).
  rewrite !loop_one, !(onByte_high _ _ Hm Hf).
  rewrite (high_byte_ok _ _ Hh), (high_byte_ok _ _ H1), Hm. cbn [fst snd].
  split; [reflexivity | split; [reflexivity|]].
  intro l. unfold state_of, published. cbn [fst snd].
  rewrite loop_one. cbn [fst snd].
  rewrite onByte_low by reflexivity.
  rewrite low_byte_checked by (fields; lia). reflexivity.
Qed.

Lemma high_byte_accepted_witness :
  mode (mkStatics 0 true true 0 0) = true /\
  first_byte (mkStatics 0 true true 0 0) = true /\
  value x01 <= 1 /\
  loop (mkStatics 0 true true 0 0) [x01] = (mkStatics 0 true false 256 0, [], []) /\
  published (loop (mkStatics 0 true false 256 0) [x00]) = [25.6%float].
Proof.
  assert (Hh : value x01 <= 1) by (vm_compute; discriminate).
  split; [reflexivity | split; [reflexivity | split; [exact Hh|]]].
  pose proof (high_byte_accepted (mkStatics 0 true true 0 0) x01
                eq_refl eq_refl Hh) as H.
  destruct H as (H1 & _ & H3).
  split; [exact H1 | exact (H3 x00)].
Defined.

(** C7: after the low byte of a frame whose high byte passed the validity
    check ([raw_data <= 256] on entry), the decoder is seeking again
    ([mode = false]), [raw_data] is the assembled value and
    [previous_raw_data] equals it, whether the value was published (it
    differed from the previous one) or not. *)
Theorem low_byte_done (s : statics) (l : byte) :
  mode s = true -> first_byte s = false -> 0 <= raw_data s <= 256 ->
  let r := loop s [l] in
  mode (state_of r) = false /\
  raw_data (state_of r) = raw_data s + value l /\
  previous_raw_data (state_of r) = raw_data (state_of r) /\
  pending r = [] /\
  published r =
    (if raw_data s + value l =? previous_raw_data s
     then [] else [tenths (raw_data s + value l)]).
Proof.
  intros Hm Hf Hr r. subst r. rewrite loop_one, (onByte_low _ _ Hm Hf).
  rewrite (low_byte_checked _ _ Hr).
  unfold state_of, pending, published. cbn [fst snd].
  repeat split; reflexivity.
Qed.

Lemma low_byte_done_witness :
  mode (mkStatics 0 true false 0 150) = true /\
  first_byte (mkStatics 0 true false 0 150) = false /\
  0 <= raw_data (mkStatics 0 true false 0 150) <= 256 /\
  (let r := loop (mkStatics 0 true false 0 150) [x96] in
   mode (state_of r) = false /\
   raw_data (state_of r) = 150 /\
   previous_raw_data (state_of r) = raw_data (state_of r) /\
   pending r = [] /\
   published r = []).
Proof.
  assert (Hr : 0 <= raw_data (mkStatics 0 true false 0 150) <= 256)
    by (cbn; lia).
  split; [reflexivity | split; [reflexivity | split; [exact Hr|]]].
  exact (low_byte_done (mkStatics 0 true false 0 150) x96 eq_refl eq_refl Hr).
Defined.

(** ** The examples of the specification *)

(** C5: from the initial state the stream 9, 1, 1, 0, 150, 1, 1, 0, 150,
    1, 1, 0, 151 publishes exactly two values, 15.0 then 15.1; and the
    stream 1, 1, 0, 200, 1, 1, 0, 210 publishes 20.0 then 21.0. *)
Theorem full_round_trip :
  map value round_trip_stream = [9; 1; 1; 0; 150; 1; 1; 0; 150; 1; 1; 0; 151] /\
  published (run initial round_trip_stream) = [15%float; 15.1%float] /\
  map value value_change_stream = [1; 1; 0; 200; 1; 1; 0; 210] /\
  published (run initial value_change_stream) = [20%float; 21%float].
Proof.
  repeat split; vm_compute; reflexivity.
Qed.

(** C9: [previous_raw_data] starts at 0, so a first frame of raw value 0
    is not published: from the initial state the stream 1, 1, 0, 0
    publishes nothing, although the frame was assembled (the decoder is
    seeking again, with [raw_data = 0]). *)
Theorem zero_first_frame :
  previous_raw_data initial = 0 /\
  map value zero_frame_stream = [1; 1; 0; 0] /\
  run initial zero_frame_stream = (mkStatics 0 false false 0 0, [], []).
Proof.
  repeat split; vm_compute; reflexivity.
Qed.

(** ** Reachable states *)

Lemma reachable_inv_initial : reachable_inv initial.
Proof. split; intro H; discriminate H. Qed.

Lemma tenths_le_51_1 (r : Z) :
  0 <= r <= 511 -> PrimFloat.leb (tenths r) 51.1%float = true.
Proof.
  intro Hr.
  assert (Hall : forallb (fun n => PrimFloat.leb (tenths (Z.of_nat n)) 51.1%float)
                   (seq 0 512) = true) by (vm_compute; reflexivity).
  rewrite forallb_forall in Hall.
  specialize (Hall (Z.to_nat r)). rewrite Z2Nat.id in Hall by lia.
  apply Hall. apply in_seq. lia.
Qed.

Lemma in_range_tenths (r : Z) : 0 <= r <= 511 -> in_range (tenths r).
Proof.
  intro Hr. exists r. split; [exact Hr | split; [reflexivity|]].
  apply tenths_le_51_1. exact Hr.
Qed.

(** One byte keeps the invariant and publishes only values in range. *)
Lemma onByte_inv (s : statics) (b : byte) :
  reachable_inv s ->
  reachable_inv (fst (onByte s b)) /\ Forall in_range (snd (onByte s b)).
Proof.
  intros [Hl Hraw]. pose proof (value_range b) as Hb.
  destruct (mode s) eqn:Hm.
  - destruct (first_byte s) eqn:Hf.
    + rewrite (onByte_high _ _ Hm Hf). cbn [fst snd]. split; [|constructor].
      destruct (Z.le_gt_cases (value b) 1) as [Hle | Hgt].
      * rewrite (high_byte_ok _ _ Hle), Hm.
        split; fields; intros; [auto | lia].
      * rewrite (high_byte_bad _ _ Hgt).
        split; fields; intro H; discriminate H.
    + rewrite (onByte_low _ _ Hm Hf).
      specialize (Hraw eq_refl eq_refl).
      rewrite (low_byte_checked _ _ Hraw). cbn [fst snd]. split.
      * split; fields; intro H; discriminate H.
      * destruct (_ =? _); constructor; [|constructor].
        apply in_range_tenths. lia.
  - rewrite (onByte_seeking _ _ Hm). cbn [fst snd]. split; [|constructor].
    destruct (Z.eq_dec (value b) 1) as [Hb1 | Hb1];
      [destruct (Z.eq_dec (lastch s) 1) as [Hl1 | Hl1]|].
    + rewrite (seek_byte_found _ _ Hb1 Hl1).
      split; fields; intros; [reflexivity | discriminate].
    + rewrite seek_byte_carry by tauto.
      split; fields; intro H; discriminate H.
    + rewrite seek_byte_carry by tauto.
      split; fields; intro H; discriminate H.
Qed.

Lemma decode_inv (bs : list byte) : forall s,
  reachable_inv s ->
  reachable_inv (fst (decode s bs)) /\ Forall in_range (snd (decode s bs)).
Proof.
  induction bs as [|b bs IH]; intros s Hs.
  - cbn. split; [exact Hs | constructor].
  - cbn [decode]. destruct (onByte_inv s b Hs) as [Hs1 Hout1].
    destruct (onByte s b) as [s1 out1]. cbn [fst snd] in *.
    destruct (IH s1 Hs1) as [Hs2 Hout2].
    destruct (decode s1 bs) as [s2 out2]. cbn [fst snd] in *.
    split; [exact Hs2 | apply Forall_app; split; assumption].
Qed.

(** Every state reached from the initial one satisfies the invariant. *)
Lemma reachable_inv_run (bs : list byte) :
  reachable_inv (state_of (run initial bs)).
Proof.
  rewrite state_of_run. apply decode_inv. exact reachable_inv_initial.
Qed.

(** C10: whatever the byte stream, every value published from the initial
    state is [r / 10.0] for an integer [r] between 0 and 511, and none
    exceeds 51.1. *)
Theorem published_in_range (bs : list byte) :
  Forall in_range (published (run initial bs)).
Proof.
  rewrite published_run. apply decode_inv. exact reachable_inv_initial.
Qed.

(** The bound is reached: the frame 1, 1, 1, 255 publishes 511 / 10.0. *)
Example range_is_tight :
  published (run initial [x01; x01; x01; xff]) = [tenths 511] /\
  tenths 511 = 51.1%float.
Proof. split; vm_compute; reflexivity. Qed.

(** ** Seeking through noise *)

Lemma adjacent_ones_cons (v1 v2 : Z) (vs : list Z) :
  adjacent_ones (v1 :: v2 :: vs) = false ->
  ~ (v2 = 1 /\ v1 = 1) /\ adjacent_ones (v2 :: vs) = false.
Proof.
  cbn [adjacent_ones]. intro H. apply orb_false_elim in H.
  destruct H as [H1 H2]. split; [|exact H2].
  intros [E2 E1]. subst. discriminate H1.
Qed.

(** Bytes that complete no start code, ending in a single 1: the decoder
    keeps seeking and remembers that 1. *)
Lemma seek_to_marker (pre : list byte) : forall s,
  mode s = false ->
  adjacent_ones (lastch s :: map value (pre ++ [x01])) = false ->
  decode s (pre ++ [x01]) =
    (mkStatics 1 false true (raw_data s) (previous_raw_data s), []).
Proof.
  induction pre as [|b pre IH]; intros s Hm Hadj.
  - cbn [app map] in *. apply adjacent_ones_cons in Hadj.
    destruct Hadj as [Hn _].
    cbn [decode]. rewrite (onByte_seeking _ _ Hm), (seek_byte_carry _ _ Hn).
    reflexivity.
  - cbn [app map] in *. apply adjacent_ones_cons in Hadj.
    destruct Hadj as [Hn Hadj].
    cbn [decode]. rewrite (onByte_seeking _ _ Hm), (seek_byte_carry _ _ Hn).
    rewrite IH by (fields; first [reflexivity | exact Hadj]).
    reflexivity.
Qed.

(** The second byte of the start code. *)
Lemma decode_marker_end (s : statics) :
  mode s = false -> lastch s = 1 ->
  decode s [x01] =
    (mkStatics 0 true true (raw_data s) (previous_raw_data s), []).
Proof.
  intros Hm Hl. cbn [decode].
  rewrite (onByte_seeking _ _ Hm), (seek_byte_found _ _ value_x01 Hl).
  reflexivity.
Qed.

(** ** Framing errors *)

(** C3, as amended: in a frame, a high byte greater than 1
    ([raw_data > 256]) sends the decoder back to seeking and publishes
    nothing; the decoder then locks on the first two neighbouring bytes of
    value 1 in the rest of the stream.  So it resynchronizes on the next
    genuine start code provided the bytes [pre] between the rejected byte
    and that start code hold no two neighbouring 1s and do not end in a 1:
    after it the decoder is in a frame, waiting for the high byte, nothing
    was published meanwhile, and the frame that follows is decoded as
    usual.  (Without the proviso the resynchronization can fail, see
    [framing_error_stray_one].) *)
Theorem framing_error_recovery (s : statics) (b : byte) (pre : list byte)
    (h l : byte) :
  reachable_inv s -> mode s = true -> first_byte s = true ->
  1 < value b ->
  has_marker (pre ++ [x01]) = false ->
  value h <= 1 ->
  loop s [b] =
    (mkStatics 0 false false (256 * value b) (previous_raw_data s), [], [])
  /\
  run s (b :: pre ++ [x01; x01]) =
    (mkStatics 0 true true (256 * value b) (previous_raw_data s), [], [])
  /\
  published (run s (b :: pre ++ [x01; x01; h; l])) =
    (if 256 * value h + value l =? previous_raw_data s
     then [] else [tenths (256 * value h + value l)]).
Proof.
  intros [Hl0 _] Hm Hf Hb Hpre Hh. specialize (Hl0 Hm).
  assert (Hbad : onByte s b =
            (mkStatics 0 false false (256 * value b) (previous_raw_data s), [])).
  { rewrite (onByte_high _ _ Hm Hf), (high_byte_bad _ _ Hb), Hl0. reflexivity. }
  set (s1 := mkStatics 0 false false (256 * value b) (previous_raw_data s)) in *.
  assert (Hseek : decode s1 (pre ++ [x01]) =
            (mkStatics 1 false true (256 * value b) (previous_raw_data s), [])).
  { apply (seek_to_marker pre s1); [reflexivity|].
    unfold has_marker in Hpre. subst s1. fields.
    destruct (map value (pre ++ [x01])) as [|v vs]; [reflexivity|].
    cbn [adjacent_ones]. exact Hpre. }
  set (s2 := mkStatics 1 false true (256 * value b) (previous_raw_data s)) in *.
  assert (Hmark : decode s (b :: pre ++ [x01; x01]) =
            (mkStatics 0 true true (256 * value b) (previous_raw_data s), [])).
  { cbn [decode]. rewrite Hbad.
    change [x01; x01] with ([x01] ++ [x01]). rewrite app_assoc.
    rewrite decode_app, Hseek. cbn [fst snd].
    rewrite (decode_marker_end s2) by reflexivity. reflexivity. }
  split; [|split].
  - rewrite loop_one, Hbad. reflexivity.
  - rewrite run_decode, Hmark. reflexivity.
  - rewrite published_run.
    change (b :: pre ++ [x01; x01; h; l])
      with ((b :: pre) ++ [x01; x01] ++ [h; l]).
    rewrite app_assoc, decode_app.
    change ((b :: pre) ++ [x01; x01]) with (b :: pre ++ [x01; x01]).
    rewrite Hmark. cbn [fst snd].
    rewrite decode_payload by (try reflexivity; exact Hh).
    reflexivity.
Qed.

Lemma framing_error_recovery_witness :
  reachable_inv (mkStatics 0 true true 0 0) /\
  1 < value x05 /\
  has_marker ([x09; x01; x07] ++ [x01]) = false /\
  value x00 <= 1 /\
  loop (mkStatics 0 true true 0 0) [x05] = (mkStatics 0 false false 1280 0, [], []) /\
  run (mkStatics 0 true true 0 0) (x05 :: [x09; x01; x07] ++ [x01; x01]) =
    (mkStatics 0 true true 1280 0, [], []) /\
  published
    (run (mkStatics 0 true true 0 0) (x05 :: [x09; x01; x07] ++ [x01; x01; x00; xc8])) =
    [20%float].
Proof.
  assert (Hinv : reachable_inv (mkStatics 0 true true 0 0)).
  { split; [reflexivity | intros _ H; discriminate H]. }
  assert (Hb : 1 < value x05) by reflexivity.
  assert (Hh : value x00 <= 1) by (vm_compute; discriminate).
  split; [exact Hinv | split; [exact Hb | split; [reflexivity | split; [exact Hh|]]]].
  exact (framing_error_recovery (mkStatics 0 true true 0 0) x05 [x09; x01; x07]
           x00 xc8 Hinv eq_refl eq_refl Hb eq_refl Hh).
Defined.

(** C3, counterexample: resynchronization on the next genuine start code
    does not hold whatever precedes that start code.  In the stream
    1, 1, 5, 1, 1, 1, 0, 200 the high byte 5 is rejected and nothing is
    published for it, but the byte 1 that follows is kept in [lastch], so
    the first byte of the genuine start code completes a start code one
    byte early; the second is read as the high byte and 0 as the low byte.
    The decoder publishes 25.6 and never decodes the frame 0, 200, which
    would have given 20.0. *)
Lemma framing_error_stray_one :
  map value [x01; x01; x05; x01; x01; x01; x00; xc8] =
    [1; 1; 5; 1; 1; 1; 0; 200] /\
  run initial [x01; x01] = (mkStatics 0 true true 0 0, [], []) /\
  loop (mkStatics 0 true true 0 0) [x05] =
    (mkStatics 0 false false 1280 0, [], []) /\
  has_marker [x01] = false /\
  run initial [x01; x01; x05; x01; x01; x01; x00; xc8] =
    (mkStatics 200 false true 256 256, [], [25.6%float]) /\
  published (run (mkStatics 0 true true 0 0)
               (x05 :: [x01] ++ [x01; x01; x00; xc8])) <>
    (if 256 * value x00 + value xc8 =? previous_raw_data (mkStatics 0 true true 0 0)
     then [] else [tenths (256 * value x00 + value xc8)]).
Proof.
  repeat (split; [vm_compute; reflexivity|]).
  intro H.
  apply (f_equal (fun vs => match vs with
                            | v :: _ => PrimFloat.ltb v 21%float
                            | [] => true
                            end)) in H.
  vm_compute in H. discriminate H.
Qed.

(** ** Sequences of well-formed frames *)

(** One well-formed frame, start code included, met while seeking. *)
Lemma decode_frame (s : statics) (f : frame) :
  mode s = false -> lastch s <> 1 -> well_formed f ->
  decode s (wire f) =
    (mkStatics 0 false false (frame_value f) (frame_value f),
     if frame_value f =? previous_raw_data s
     then [] else [tenths (frame_value f)]).
Proof.
  intros Hm Hl Hf. unfold wire.
  change [x01; x01; high f; low f] with ([x01] ++ [x01] ++ [high f; low f]).
  rewrite decode_app.
  assert (H1 : decode s [x01] =
            (mkStatics 1 false true (raw_data s) (previous_raw_data s), [])).
  { cbn [decode]. rewrite (onByte_seeking _ _ Hm).
    rewrite seek_byte_carry by tauto. reflexivity. }
  rewrite H1. cbn [fst snd]. rewrite decode_app.
  rewrite decode_marker_end by reflexivity. cbn [fst snd].
  rewrite decode_payload by (try reflexivity; exact Hf).
  reflexivity.
Qed.

Lemma decode_frames (fs : list frame) : forall s,
  mode s = false -> lastch s <> 1 -> Forall well_formed fs ->
  snd (decode s (wire_all fs)) = expected_publishes (previous_raw_data s) fs.
Proof.
  induction fs as [|f fs IH]; intros s Hm Hl Hwf.
  - reflexivity.
  - inversion Hwf as [|f' fs' Hf Hfs]; subst.
    unfold wire_all. cbn [flat_map]. fold (wire_all fs).
    rewrite decode_app, (decode_frame _ _ Hm Hl Hf). cbn [fst snd].
    rewrite IH by (try reflexivity; try exact Hfs; fields; discriminate).
    cbn [expected_publishes previous_raw_data].
    destruct (frame_value f =? previous_raw_data s) eqn:E.
    + apply Z.eqb_eq in E. rewrite E. reflexivity.
    + reflexivity.
Qed.

(** C1: a sequence of well-formed frames (1, 1, a high byte of at most 1,
    a low byte) fed to a seeking decoder publishes exactly one measurement
    for each frame whose value differs from the previously emitted value
    ([previous_raw_data], 0 at start), and none for a frame that repeats
    the value before it. *)
Theorem well_formed_frames (s : statics) (fs : list frame) :
  mode s = false -> lastch s <> 1 -> Forall well_formed fs ->
  published (run s (wire_all fs)) =
    expected_publishes (previous_raw_data s) fs.
Proof.
  intros Hm Hl Hwf. rewrite published_run. apply decode_frames; assumption.
Qed.

Lemma well_formed_frames_witness :
  mode initial = false /\ lastch initial <> 1 /\
  Forall well_formed [mkFrame x00 xc8; mkFrame x00 xc8; mkFrame x01 x00] /\
  published
    (run initial
       [x01; x01; x00; xc8; x01; x01; x00; xc8; x01; x01; x01; x00]) =
    [20%float; 25.6%float].
Proof.
  assert (Hl : lastch initial <> 1) by discriminate.
  assert (Hwf : Forall well_formed
                  [mkFrame x00 xc8; mkFrame x00 xc8; mkFrame x01 x00]).
  { repeat constructor; unfold well_formed; vm_compute; discriminate. }
  split; [reflexivity | split; [exact Hl | split; [exact Hwf|]]].
  exact (well_formed_frames initial
           [mkFrame x00 xc8; mkFrame x00 xc8; mkFrame x01 x00] eq_refl Hl Hwf).
Defined.

(** * Further properties of [startcode] and [loop] *)

(** ** Delivery schedules *)

Lemma schedule_independent_witness :
  pending (polls [[x01]; [x01; x00]; []; [xc8]] initial []) = [] /\
  polls [[x01]; [x01; x00]; []; [xc8]] initial [] =
    run initial [x01; x01; x00; xc8].
Proof.
  split; [reflexivity|].
  exact (schedule_independent [[x01]; [x01; x00]; []; [xc8]] initial eq_refl).
Defined.

(** X9: decoding composes: a stream cut anywhere, even inside a frame, and
    run in two parts from the variables the first part left, publishes
    what the whole stream publishes and ends in the same variables. *)
Theorem run_app (s : statics) (bs1 bs2 : list byte) :
  run s (bs1 ++ bs2) =
    (state_of (run (state_of (run s bs1)) bs2), [],
     published (run s bs1) ++ published (run (state_of (run s bs1)) bs2)).
Proof.
  rewrite (run_decode s (bs1 ++ bs2)), decode_app, (run_decode s bs1).
  unfold state_of, published. cbn [fst snd].
  rewrite run_decode. reflexivity.
Qed.

(** ** One call of [loop] *)

Lemma frame_while_one (rx : fifo) : forall s,
  (length (published (frame_while s rx)) <= 1)%nat /\
  (pending (frame_while s rx) <> [] ->
   mode (state_of (frame_while s rx)) = false).
Proof.
  induction rx as [|b rx IH]; intro s.
  - cbn. split; [lia | congruence].
  - cbn [frame_while]. destruct (mode s) eqn:Hm.
    + destruct (first_byte s) eqn:Hf; [apply IH|].
      pose proof (low_byte_wrap s b) as Hlow. cbv zeta in Hlow.
      rewrite Hlow. rewrite frame_while_seeking by reflexivity.
      unfold published, pending, state_of. cbn [fst snd].
      split; [|reflexivity].
      destruct (_ =? _); cbn; lia.
    + unfold published, pending, state_of. cbn [fst snd length].
      split; [lia | intros _; exact Hm].
Qed.

(** X2: one call of [loop()] decodes at most one frame: it publishes at
    most one value; when it leaves bytes in the UART the decoder is
    seeking (the second loop ended a frame and the first is not entered
    again); and it reads at least one byte whenever one is waiting. *)
Theorem loop_single_frame (s : statics) (rx : fifo) :
  (length (published (loop s rx)) <= 1)%nat /\
  (pending (loop s rx) <> [] -> mode (state_of (loop s rx)) = false) /\
  (rx <> [] -> (length (pending (loop s rx)) < length rx)%nat).
Proof.
  split; [|split].
  - unfold loop. destruct (seek_while s rx) as [s1 rx1].
    apply frame_while_one.
  - unfold loop. destruct (seek_while s rx) as [s1 rx1].
    apply frame_while_one.
  - apply loop_progress.
Qed.

(** ** [startcode] on its own *)

(** X6: [startcode] returns true exactly when its argument is 1 and the
    argument of the call before was 1 without completing a start code
    ([lastch == 1]); it changes no variable but [lastch]; and it never
    returns true on two calls in a row, whatever the arguments: the start
    code it reports is consumed. *)
Theorem startcode_consumes (c1 c2 : Z) (s : statics) :
  (fst (startcode c1 s) = true <-> c1 = 1 /\ lastch s = 1) /\
  snd (startcode c1 s) = set_lastch s (lastch (snd (startcode c1 s))) /\
  fst (startcode c1 s) && fst (startcode c2 (snd (startcode c1 s))) = false.
Proof.
  unfold startcode.
  destruct (Z.eqb_spec c1 1) as [E1 | E1];
    destruct (Z.eqb_spec (lastch s) 1) as [El | El];
    cbn [andb fst snd]; repeat split; intros;
    first [ reflexivity | tauto | congruence
          | fields; destruct (c2 =? 1); reflexivity ].
Qed.

(** ** Streams without a start code *)

Lemma last_cons {A : Type} (l : list A) : forall a d : A,
  last (a :: l) d = last l a.
Proof.
  induction l as [|b l IH]; intros a d; [reflexivity|].
  change (last (a :: b :: l) d) with (last (b :: l) d).
  rewrite !IH. reflexivity.
Qed.

Lemma adjacent_ones_head (c : Z) (vs : list Z) :
  c <> 1 -> adjacent_ones vs = false -> adjacent_ones (c :: vs) = false.
Proof.
  intros Hc Hvs. destruct vs as [|v vs]; [reflexivity|].
  cbn [adjacent_ones] in *. rewrite Hvs.
  destruct (Z.eqb_spec c 1); [contradiction | reflexivity].
Qed.

Lemma seek_noise (bs : list byte) : forall s,
  mode s = false ->
  adjacent_ones (lastch s :: map value bs) = false ->
  bs <> [] ->
  decode s bs =
    (mkStatics (last (map value bs) (lastch s)) false true
       (raw_data s) (previous_raw_data s), []).
Proof.
  induction bs as [|b bs IH]; intros s Hm Hadj Hne; [congruence|].
  cbn [map] in Hadj. apply adjacent_ones_cons in Hadj.
  destruct Hadj as [Hn Hadj].
  cbn [decode]. rewrite (onByte_seeking _ _ Hm), (seek_byte_carry _ _ Hn).
  cbn [map]. rewrite last_cons.
  destruct bs as [|b' bs]; [reflexivity|].
  rewrite IH by (first [reflexivity | exact Hadj | discriminate]).
  reflexivity.
Qed.

(** X5: without a start code nothing happens: on a stream with no two
    neighbouring bytes of value 1, a seeking decoder whose lookback is not
    1 publishes nothing, keeps seeking, leaves [raw_data] and
    [previous_raw_data] untouched and remembers the last byte in
    [lastch]. *)
Theorem noise_is_silent (s : statics) (bs : list byte) :
  mode s = false -> lastch s <> 1 -> has_marker bs = false ->
  published (run s bs) = [] /\
  mode (state_of (run s bs)) = false /\
  raw_data (state_of (run s bs)) = raw_data s /\
  previous_raw_data (state_of (run s bs)) = previous_raw_data s /\
  lastch (state_of (run s bs)) = last (map value bs) (lastch s).
Proof.
  intros Hm Hl Hbs. rewrite run_decode. unfold published, state_of.
  cbn [fst snd].
  destruct bs as [|b bs].
  - cbn. repeat split; try reflexivity. exact Hm.
  - rewrite seek_noise.
    + cbn [fst snd]. repeat split; reflexivity.
    + exact Hm.
    + apply adjacent_ones_head; [exact Hl | exact Hbs].
    + discriminate.
Qed.

Lemma noise_is_silent_witness :
  mode initial = false /\ lastch initial <> 1 /\
  has_marker [x09; x01; x00; x01; xff] = false /\
  published (run initial [x09; x01; x00; x01; xff]) = [] /\
  mode (state_of (run initial [x09; x01; x00; x01; xff])) = false /\
  raw_data (state_of (run initial [x09; x01; x00; x01; xff])) = 0 /\
  previous_raw_data (state_of (run initial [x09; x01; x00; x01; xff])) = 0 /\
  lastch (state_of (run initial [x09; x01; x00; x01; xff])) = 255.
Proof.
  assert (Hl : lastch initial <> 1) by discriminate.
  split; [reflexivity | split; [exact Hl | split; [reflexivity|]]].
  exact (noise_is_silent initial [x09; x01; x00; x01; xff] eq_refl Hl eq_refl).
Defined.

(** ** Misalignment *)

(** X4: a stray byte of value 1 just before a frame makes the decoder
    lock on one byte early.  Seeking with [lastch == 1], the bytes 1, 1,
    h, l are read as: end of the start code, high byte 1, low byte h; the
    decoder assembles [256 + h] (and publishes it unless it is the previous
    value), whatever h is, and takes l for noise. *)
Theorem stray_one_misaligns (s : statics) (h l : byte) :
  mode s = false -> lastch s = 1 ->
  run s [x01; x01; h; l] =
    (mkStatics (value l) false true (256 + value h) (256 + value h), [],
     if 256 + value h =? previous_raw_data s
     then [] else [tenths (256 + value h)]).
Proof.
  intros Hm Hl. rewrite run_decode.
  change [x01; x01; h; l] with ([x01] ++ [x01; h] ++ [l]).
  rewrite decode_app, (decode_marker_end _ Hm Hl). cbn [fst snd].
  assert (H1 : value x01 <= 1) by (rewrite value_x01; lia).
  rewrite decode_app, decode_payload by (first [reflexivity | exact H1]).
  cbn [fst snd]. rewrite value_x01. change (256 * 1) with 256.
  cbn [decode]. rewrite onByte_seeking by reflexivity.
  rewrite seek_byte_carry by (fields; lia).
  fields. rewrite !app_nil_r. reflexivity.
Qed.

Lemma stray_one_misaligns_witness :
  mode (state_of (run initial [x01])) = false /\
  lastch (state_of (run initial [x01])) = 1 /\
  run (state_of (run initial [x01])) [x01; x01; x00; xc8] =
    (mkStatics 200 false true 256 256, [], [25.6%float]).
Proof.
  split; [reflexivity | split; [reflexivity|]].
  exact (stray_one_misaligns (state_of (run initial [x01])) x00 xc8
           eq_refl eq_refl).
Defined.

(** ** Rejected frames among good ones *)

(** A frame whose high byte fails the validity check, met while seeking:
    nothing is published and the low byte is taken for noise. *)
Lemma decode_rejected_frame (s : statics) (f : frame) :
  mode s = false -> lastch s <> 1 -> 1 < value (high f) ->
  decode s (wire f) =
    (mkStatics (value (low f)) false true (256 * value (high f))
       (previous_raw_data s), []).
Proof.
  intros Hm Hl Hh. unfold wire.
  change [x01; x01; high f; low f]
    with ([x01] ++ [x01] ++ [high f; low f]).
  rewrite decode_app.
  assert (H1 : decode s [x01] =
            (mkStatics 1 false true (raw_data s) (previous_raw_data s), [])).
  { cbn [decode]. rewrite (onByte_seeking _ _ Hm).
    rewrite seek_byte_carry by tauto. reflexivity. }
  rewrite H1. cbn [fst snd]. rewrite decode_app.
  rewrite decode_marker_end by reflexivity. cbn [fst snd].
  cbn [decode]. rewrite onByte_high by reflexivity.
  rewrite (high_byte_bad _ _ Hh). fields.
  rewrite onByte_seeking by reflexivity.
  rewrite seek_byte_carry by (fields; lia).
  reflexivity.
Qed.

Lemma decode_tolerated (fs : list frame) : forall s,
  mode s = false -> lastch s <> 1 -> Forall tolerated fs ->
  snd (decode s (wire_all fs)) =
    expected_publishes (previous_raw_data s) (filter accepted fs).
Proof.
  induction fs as [|f fs IH]; intros s Hm Hl Hall; [reflexivity|].
  inversion Hall as [|f' fs' Hf Hfs]; subst.
  unfold wire_all. cbn [flat_map filter]. fold (wire_all fs).
  rewrite decode_app. unfold accepted at 1.
  destruct Hf as [Hwf | [Hbad Hlow]].
  - unfold well_formed in Hwf.
    destruct (Z.leb_spec (value (high f)) 1) as [_ | Hgt]; [|lia].
    rewrite (decode_frame _ _ Hm Hl Hwf). cbn [fst snd].
    rewrite IH by (first [reflexivity | exact Hfs | fields; discriminate]).
    cbn [expected_publishes previous_raw_data].
    destruct (frame_value f =? previous_raw_data s) eqn:E; [|reflexivity].
    apply Z.eqb_eq in E. rewrite E. reflexivity.
  - destruct (Z.leb_spec (value (high f)) 1) as [Hle | _]; [lia|].
    rewrite (decode_rejected_frame _ _ Hm Hl Hbad). cbn [fst snd app].
    rewrite IH by (first [reflexivity | exact Hfs | exact Hlow]).
    reflexivity.
Qed.

(** X10: rejected frames are dropped without harm to their neighbours,
    provided their low byte is not 1: for a sequence of frames each of
    which is well formed, or has a high byte above 1 and a low byte other
    than 1, the decoder publishes what it would publish for the well-formed
    frames alone. *)
Theorem tolerated_frames (s : statics) (fs : list frame) :
  mode s = false -> lastch s <> 1 -> Forall tolerated fs ->
  published (run s (wire_all fs)) =
    expected_publishes (previous_raw_data s) (filter accepted fs).
Proof.
  intros Hm Hl Hall. rewrite published_run.
  apply decode_tolerated; assumption.
Qed.

Lemma tolerated_frames_witness :
  mode initial = false /\ lastch initial <> 1 /\
  Forall tolerated [mkFrame x00 xc8; mkFrame x05 x09; mkFrame x00 xd2] /\
  published
    (run initial
       [x01; x01; x00; xc8; x01; x01; x05; x09; x01; x01; x00; xd2]) =
    [20%float; 21%float].
Proof.
  assert (Hl : lastch initial <> 1) by discriminate.
  assert (Hall : Forall tolerated
                   [mkFrame x00 xc8; mkFrame x05 x09; mkFrame x00 xd2]).
  { constructor; [left; unfold well_formed; vm_compute; discriminate|].
    constructor; [right; split; [reflexivity | vm_compute; discriminate]|].
    constructor; [left; unfold well_formed; vm_compute; discriminate|].
    constructor. }
  split; [reflexivity | split; [exact Hl | split; [exact Hall|]]].
  exact (tolerated_frames initial
           [mkFrame x00 xc8; mkFrame x05 x09; mkFrame x00 xd2] eq_refl Hl Hall).
Defined.

(** ** Ranges of the variables *)

Lemma in_bounds_initial : in_bounds initial.
Proof. unfold in_bounds. cbn. lia. Qed.

Lemma onByte_bounds (s : statics) (b : byte) :
  reachable_inv s -> in_bounds s -> in_bounds (fst (onByte s b)).
Proof.
  intros [_ Hraw] (Hl & Hr & Hp). pose proof (value_range b) as Hb.
  unfold in_bounds.
  destruct (mode s) eqn:Hm.
  - destruct (first_byte s) eqn:Hf.
    + rewrite (onByte_high _ _ Hm Hf). cbn [fst].
      destruct (Z.le_gt_cases (value b) 1) as [Hle | Hgt].
      * rewrite (high_byte_ok _ _ Hle). fields. lia.
      * rewrite (high_byte_bad _ _ Hgt). fields. lia.
    + rewrite (onByte_low _ _ Hm Hf).
      specialize (Hraw eq_refl eq_refl).
      rewrite (low_byte_checked _ _ Hraw). fields. lia.
  - rewrite (onByte_seeking _ _ Hm). cbn [fst].
    destruct (Z.eq_dec (value b) 1) as [Hb1 | Hb1];
      [destruct (Z.eq_dec (lastch s) 1) as [Hl1 | Hl1]|].
    + rewrite (seek_byte_found _ _ Hb1 Hl1). fields. lia.
    + rewrite seek_byte_carry by tauto. fields. lia.
    + rewrite seek_byte_carry by tauto. fields. lia.
Qed.

Lemma decode_bounds (bs : list byte) : forall s,
  reachable_inv s -> in_bounds s -> in_bounds (fst (decode s bs)).
Proof.
  induction bs as [|b bs IH]; intros s Hinv Hbd; [exact Hbd|].
  cbn [decode].
  pose proof (onByte_inv s b Hinv) as [Hinv1 _].
  pose proof (onByte_bounds s b Hinv Hbd) as Hbd1.
  destruct (onByte s b) as [s1 out1]. cbn [fst snd] in *.
  specialize (IH s1 Hinv1 Hbd1).
  destruct (decode s1 bs) as [s2 out2]. exact IH.
Qed.

(** X7: whatever the stream, the variables stay in range ([lastch] a
    byte, [raw_data] at most 255 * 256, [previous_raw_data] at most 511),
    and the two conversions to [unsigned short] never wrap: neither
    [256 * read()] nor, in a frame after the high byte, [raw_data + read()]
    reaches 65536. *)
Theorem variables_in_bounds (bs : list byte) (b : byte) :
  in_bounds (state_of (run initial bs)) /\
  ushort (256 * value b) = 256 * value b /\
  (mode (state_of (run initial bs)) = true ->
   first_byte (state_of (run initial bs)) = false ->
   ushort (raw_data (state_of (run initial bs)) + value b) =
     raw_data (state_of (run initial bs)) + value b).
Proof.
  pose proof (value_range b) as Hb.
  pose proof (reachable_inv_run bs) as [_ Hraw].
  split; [|split].
  - rewrite state_of_run.
    apply decode_bounds; [exact reachable_inv_initial | exact in_bounds_initial].
  - apply ushort_small. lia.
  - intros Hm Hf. specialize (Hraw Hm Hf). apply ushort_small. lia.
Qed.

(** ** How often a value can be published *)

Lemma onByte_phase (s : statics) (b : byte) :
  reachable_inv s ->
  (4 * length (snd (onByte s b)) + phase (fst (onByte s b)) <= phase s + 1)%nat.
Proof.
  intros [Hl0 _]. unfold phase at 2.
  destruct (mode s) eqn:Hm.
  - specialize (Hl0 eq_refl). destruct (first_byte s) eqn:Hf.
    + rewrite (onByte_high _ _ Hm Hf). cbn [fst snd length].
      destruct (Z.le_gt_cases (value b) 1) as [Hle | Hgt].
      * rewrite (high_byte_ok _ _ Hle), Hm. unfold phase. fields. lia.
      * rewrite (high_byte_bad _ _ Hgt), Hl0. unfold phase. fields.
        cbn. lia.
    + rewrite (onByte_low _ _ Hm Hf).
      pose proof (low_byte_wrap s b) as Hlow. cbv zeta in Hlow.
      rewrite Hlow, Hl0. unfold phase. fields.
      destruct (_ =? previous_raw_data s); cbn; lia.
  - rewrite (onByte_seeking _ _ Hm). cbn [fst snd length].
    destruct (Z.eq_dec (value b) 1) as [Hb1 | Hb1];
      [destruct (Z.eq_dec (lastch s) 1) as [Hl1 | Hl1]|].
    + rewrite (seek_byte_found _ _ Hb1 Hl1), Hl1. unfold phase. fields.
      cbn. lia.
    + rewrite seek_byte_carry by tauto. unfold phase. fields.
      destruct (value b =? 1); destruct (lastch s =? 1); lia.
    + rewrite seek_byte_carry by tauto. unfold phase. fields.
      destruct (Z.eqb_spec (value b) 1); [contradiction|].
      destruct (lastch s =? 1); lia.
Qed.

Lemma decode_phase (bs : list byte) : forall s,
  reachable_inv s ->
  (4 * length (snd (decode s bs)) + phase (fst (decode s bs))
   <= phase s + length bs)%nat.
Proof.
  induction bs as [|b bs IH]; intros s Hinv.
  - cbn. lia.
  - cbn [decode].
    pose proof (onByte_inv s b Hinv) as [Hinv1 _].
    pose proof (onByte_phase s b Hinv) as Hstep.
    destruct (onByte s b) as [s1 out1]. cbn [fst snd] in *.
    specialize (IH s1 Hinv1).
    destruct (decode s1 bs) as [s2 out2]. cbn [fst snd length] in *.
    rewrite length_app. lia.
Qed.

(** X8: a value costs four bytes: whatever the stream, the decoder
    publishes at most one value per four bytes read. *)
Theorem publish_rate (bs : list byte) :
  (4 * length (published (run initial bs)) <= length bs)%nat.
Proof.
  rewrite published_run.
  pose proof (decode_phase bs initial reachable_inv_initial) as H.
  change (phase initial) with 0%nat in H. lia.
Qed.

(** ** No value is published twice in a row *)

(** Distinct raw values in range give distinct measurements: [rank]
    recovers the raw value. *)
Lemma rank_tenths (r : Z) : 0 <= r <= 511 -> rank (tenths r) = r.
Proof.
  intro Hr.
  assert (Hall : forallb (fun n => rank (tenths (Z.of_nat n)) =? Z.of_nat n)
                   (seq 0 512) = true) by (vm_compute; reflexivity).
  rewrite forallb_forall in Hall.
  specialize (Hall (Z.to_nat r)). rewrite Z2Nat.id in Hall by lia.
  apply Z.eqb_eq. apply Hall. apply in_seq. lia.
Qed.

Lemma tenths_inj (a b : Z) :
  0 <= a <= 511 -> 0 <= b <= 511 -> tenths a = tenths b -> a = b.
Proof.
  intros Ha Hb E. rewrite <- (rank_tenths a Ha), <- (rank_tenths b Hb), E.
  reflexivity.
Qed.

Lemma no_repeat_tail {A : Type} (a : A) (l : list A) :
  no_repeat (a :: l) -> no_repeat l.
Proof.
  destruct l as [|b l]; cbn [no_repeat]; [trivial | intros [_ H]; exact H].
Qed.

Lemma no_repeat_map_tenths (rs : list Z) :
  Forall (fun r => 0 <= r <= 511) rs -> no_repeat rs ->
  no_repeat (map tenths rs).
Proof.
  induction rs as [|a rs IH]; intros Hall Hnr; [exact I|].
  inversion Hall as [|a' rs' Ha Hrs]; subst.
  destruct rs as [|b rs]; [exact I|].
  inversion Hrs as [|b' rs'' Hb _]; subst.
  destruct Hnr as [Hab Hnr]. cbn [map no_repeat]. split.
  - intro E. apply Hab. exact (tenths_inj a b Ha Hb E).
  - apply (IH Hrs Hnr).
Qed.

(** One byte publishes nothing, or one raw value in range that differs
    from [previous_raw_data] and replaces it. *)
Lemma onByte_raws (s : statics) (b : byte) :
  reachable_inv s ->
  (snd (onByte s b) = [] /\
   previous_raw_data (fst (onByte s b)) = previous_raw_data s) \/
  (exists r, snd (onByte s b) = [tenths r] /\ 0 <= r <= 511 /\
             r <> previous_raw_data s /\
             previous_raw_data (fst (onByte s b)) = r).
Proof.
  intros [_ Hraw]. pose proof (value_range b) as Hb.
  destruct (mode s) eqn:Hm.
  - destruct (first_byte s) eqn:Hf.
    + left. rewrite (onByte_high _ _ Hm Hf). cbn [fst snd].
      split; [reflexivity|]. unfold high_byte. cbv zeta.
      destruct (_ >? 256); reflexivity.
    + specialize (Hraw eq_refl eq_refl).
      rewrite (onByte_low _ _ Hm Hf), (low_byte_checked _ _ Hraw).
      cbn [fst snd previous_raw_data].
      destruct (Z.eqb_spec (raw_data s + value b) (previous_raw_data s))
        as [E | E].
      * left. split; [reflexivity | exact E].
      * right. exists (raw_data s + value b).
        repeat split; try reflexivity; lia.
  - left. rewrite (onByte_seeking _ _ Hm). cbn [fst snd].
    split; [reflexivity|]. unfold seek_byte, startcode.
    destruct (_ && _); reflexivity.
Qed.

Lemma decode_raws (bs : list byte) : forall s,
  reachable_inv s ->
  exists rs,
    snd (decode s bs) = map tenths rs /\
    Forall (fun r => 0 <= r <= 511) rs /\
    no_repeat (previous_raw_data s :: rs).
Proof.
  induction bs as [|b bs IH]; intros s Hinv.
  - exists []. split; [reflexivity | split; [constructor | exact I]].
  - cbn [decode].
    pose proof (onByte_inv s b Hinv) as [Hinv1 _].
    pose proof (onByte_raws s b Hinv) as Hstep.
    destruct (onByte s b) as [s1 out1]. cbn [fst snd] in *.
    destruct (IH s1 Hinv1) as (rs & Hout & Hrange & Hnr).
    destruct (decode s1 bs) as [s2 out2]. cbn [fst snd] in *.
    destruct Hstep as [[Ho Hp] | (r & Ho & Hr & Hne & Hp)]; subst out1.
    + exists rs. rewrite <- Hp. cbn [app].
      split; [exact Hout | split; [exact Hrange | exact Hnr]].
    + exists (r :: rs). subst out2. cbn [app map].
      split; [reflexivity | split; [constructor; assumption|]].
      change (previous_raw_data s <> r /\ no_repeat (r :: rs)).
      split; [congruence|]. rewrite <- Hp. exact Hnr.
Qed.

(** X3: whatever the stream, the values published from the initial state
    are the measurements of raw values between 0 and 511 of which each
    differs from the one before, the first from 0; so no value is
    published twice in a row, and 0.0 is never the first one. *)
Theorem published_no_repeat (bs : list byte) :
  exists rs : list Z,
    published (run initial bs) = map tenths rs /\
    Forall (fun r => 0 <= r <= 511) rs /\
    no_repeat (0 :: rs) /\
    no_repeat (published (run initial bs)).
Proof.
  rewrite published_run.
  destruct (decode_raws bs initial reachable_inv_initial)
    as (rs & Hout & Hrange & Hnr).
  exists rs. rewrite Hout.
  split; [reflexivity | split; [exact Hrange | split; [exact Hnr|]]].
  apply no_repeat_map_tenths; [exact Hrange|].
  exact (no_repeat_tail _ _ Hnr).
Qed.

(** ** Acquiring the start code *)

(** X11: a seeking decoder locks on the first start code: after any
    bytes [pre] such that no two neighbouring 1s occur before the second
    byte of the start code, the bytes 1, 1 put it in a frame with nothing
    published, and a payload h, l with h at most 1 is then assembled and
    published unless it repeats the previous value; the noise is
    forgotten. *)
Theorem locks_on_first_marker (s : statics) (pre : list byte) (h l : byte) :
  mode s = false -> lastch s <> 1 ->
  has_marker (pre ++ [x01]) = false ->
  value h <= 1 ->
  run s (pre ++ [x01; x01]) =
    (mkStatics 0 true true (raw_data s) (previous_raw_data s), [], []) /\
  run s (pre ++ [x01; x01; h; l]) =
    (mkStatics 0 false false (256 * value h + value l)
       (256 * value h + value l), [],
     if 256 * value h + value l =? previous_raw_data s
     then [] else [tenths (256 * value h + value l)]).
Proof.
  intros Hm Hl Hpre Hh.
  assert (Hseek : decode s (pre ++ [x01]) =
            (mkStatics 1 false true (raw_data s) (previous_raw_data s), [])).
  { apply (seek_to_marker pre s Hm).
    apply adjacent_ones_head; [exact Hl | exact Hpre]. }
  assert (Hmark : decode s (pre ++ [x01; x01]) =
            (mkStatics 0 true true (raw_data s) (previous_raw_data s), [])).
  { change [x01; x01] with ([x01] ++ [x01]).
    rewrite app_assoc, decode_app, Hseek. cbn [fst snd].
    rewrite decode_marker_end by reflexivity. reflexivity. }
  split.
  - rewrite run_decode, Hmark. reflexivity.
  - rewrite run_decode.
    change [x01; x01; h; l] with ([x01; x01] ++ [h; l]).
    rewrite app_assoc, decode_app, Hmark. cbn [fst snd].
    rewrite decode_payload by (first [reflexivity | exact Hh]).
    reflexivity.
Qed.

Lemma locks_on_first_marker_witness :
  mode initial = false /\ lastch initial <> 1 /\
  has_marker ([x09; x01; x00] ++ [x01]) = false /\
  value x01 <= 1 /\
  run initial ([x09; x01; x00] ++ [x01; x01]) =
    (mkStatics 0 true true 0 0, [], []) /\
  run initial ([x09; x01; x00] ++ [x01; x01; x01; x2c]) =
    (mkStatics 0 false false 300 300, [], [30%float]).
Proof.
  assert (Hl : lastch initial <> 1) by discriminate.
  assert (Hh : value x01 <= 1) by (vm_compute; discriminate).
  split; [reflexivity | split; [exact Hl | split; [reflexivity | split; [exact Hh|]]]].
  exact (locks_on_first_marker initial [x09; x01; x00] x01 x2c
           eq_refl Hl eq_refl Hh).
Defined.
